(** * vTensor and its host-access Future (ATen Vulkan backend, ops/Tensor.h)

    A shallow embedding of the members that ops/Tensor.h defines inline:
    the constructors, move operations, destructor and [wait] of
    [vTensor::Future], and the two public [vTensor::host] templates.  The
    members that the header only declares ([buffer], [image] and the private
    [host] overloads) are modelled from the written specification and are
    marked as such. *)

From stdpp Require Import base option strings gmap.
From Stdlib Require Import ZArith Bool List Lia.
Import ListNotations.

Local Open Scope Z_scope.

(** ** Outcomes *)

(** The exceptions the specification names.  [TORCH_CHECK] and
    [TORCH_INTERNAL_ASSERT] both throw [c10::Error]; the specification calls
    the ones raised on a null back-reference [InvalidStateError]. *)
Inductive Error :=
  | InvalidStateError
  | ConversionFailureError.

(** Outcome of a call to a member function: a value, a thrown exception,
    undefined behaviour (a pointer that does not designate a live object), or
    a call that is rejected when the program is compiled. *)
Inductive Res (A : Type) :=
  | Ok (a : A)
  | Throw (e : Error)
  | Undefined
  | IllFormed.
Arguments Ok {A} a.
Arguments Throw {A} e.
Arguments Undefined {A}.
Arguments IllFormed {A}.

#[global] Instance Res_ret : MRet Res := @Ok.
#[global] Instance Res_bind : MBind Res := fun A B k m =>
  match m with
  | Ok a => k a
  | Throw e => Throw e
  | Undefined => Undefined
  | IllFormed => IllFormed
  end.

(** ** Access flags *)

Module Access.

(** [api::Resource::Memory::Access::Flags] is an unsigned bit mask; the
    header tests it with [kAccess & vTensor::Access::Write]. *)
Definition Flags := Z.

(** Modelled from the spec: the enumerators of
    [api::Resource::Memory::Access] live in api/Resource.h, which is not
    part of these sources.  The access intent is "a flag set from
    {Read, Write} (ReadWrite = both)": two independent one-bit flags. *)
Definition Read : Flags := 1.
Definition Write : Flags := 2.

(** [0 != (access & flag)] *)
Definition has (flag access : Flags) : bool :=
  negb (Z.land access flag =? 0).

End Access.

(** ** Resources *)

Module Resource.

(** Modelled from the spec: [api::Resource::Memory] is declared in
    api/Resource.h, which is not part of these sources.  It stands for one
    "physical allocation". *)
Record Memory := { allocation : Z }.

(** Modelled from the spec: [api::Resource::Buffer], from the same absent
    header.  A representation is "an optional owned handle to a physical
    allocation": a Vulkan handle, null ([VK_NULL_HANDLE], 0) when the
    representation is absent, together with its memory. *)
Record Buffer := { buffer_handle : Z; buffer_memory : Memory }.

(** Modelled from the spec: [api::Resource::Image], from the same absent
    header, an optional owned handle like [Buffer]. *)
Record Image := { image_handle : Z; image_memory : Memory }.

(** Modelled from the spec: [Buffer::operator bool], from the same absent
    header; it tells whether the buffer is "present". *)
Definition Buffer_bool (b : Buffer) : bool := negb (buffer_handle b =? 0).

End Resource.

(** ** The tensor *)

(** The three representations that [dirty_] tracks. *)
Inductive Rep := Image | Buffer | Staging.

#[global] Instance Rep_eq_dec : EqDecision Rep := ltac:(solve_decision).

(** [mutable struct { uint32_t image : 1u; buffer : 1u; staging : 1u; } dirty_] *)
Record Dirty := { image : bool; buffer : bool; staging : bool }.

(** Objects live at addresses; a pointer is an address or [nullptr]. *)
Abbreviation address := positive.
Abbreviation nullptr := (@None address).

Record vTensor := {
  image_ : Resource.Image;
  buffer_ : Resource.Buffer;
  staging_ : Resource.Buffer;
  context_ : option address;
  sizes_ : list Z;
  options_ : Z;
  dirty_ : Dirty
}.

(** ** The future *)

(** [vTensor::Future<Type, kAccess>].  The template arguments are kept with
    the object; no member function changes them.  The only data member is
    [tensor_]. *)
Record Future := {
  Type_ : string;
  kAccess : Access.Flags;
  tensor_ : option address
}.

(** [future.tensor_ = p] *)
Definition set_tensor_ (p : option address) (f : Future) : Future :=
  {| Type_ := Type_ f; kAccess := kAccess f; tensor_ := p |}.

(** [api::Resource::Memory::Data<Access::Pointer<Type, kAccess>>]: what
    [Memory::map<Type, kAccess>] hands back, the mapped allocation seen as
    [Type] under [kAccess]. *)
Record Payload := {
  payload_memory : Resource.Memory;
  payload_type : string;
  payload_access : Access.Flags
}.

(** Calls that reach the collaborators of the tensor: memory mappings and
    copies or conversions between representations. *)
Inductive Event :=
  | EvMap (m : Resource.Memory) (access : Access.Flags)
  | EvConvert (src dst : Rep).

(** The program state: the live tensors, the live futures, and the calls
    issued to the collaborators so far. *)
Record World := {
  tensors : gmap address vTensor;
  futures : gmap address Future;
  log : list Event
}.

Definition with_futures (fs : gmap address Future) (w : World) : World :=
  {| tensors := tensors w; futures := fs; log := log w |}.

Definition emit (e : Event) (w : World) : World :=
  {| tensors := tensors w; futures := futures w; log := log w ++ [e] |}.

(** Reading through a pointer to a live object. *)
Definition deref {A} (m : gmap address A) (p : address) : Res A :=
  match m !! p with
  | Some a => Ok a
  | None => Undefined
  end.

(** ** Assertion macros *)

(** Modelled from the spec: [TORCH_CHECK(cond, ...)] is defined in
    c10/util/Exception.h, outside these sources.  It throws when [cond] does
    not hold; on a null back-reference that is the [InvalidStateError] of the
    specification. *)
Definition TORCH_CHECK (cond : bool) : Res unit :=
  if cond then Ok tt else Throw InvalidStateError.

(** [TORCH_INTERNAL_ASSERT_DEBUG_ONLY(cond, ...)].  The macro is defined in
    c10/util/Exception.h, outside these sources.  As its name says the
    assertion is compiled into debug builds only, so the build flavour is a
    parameter: [NDEBUG = true] is a release build, where nothing is
    evaluated. *)
Definition TORCH_INTERNAL_ASSERT_DEBUG_ONLY (NDEBUG : bool) (cond : bool)
    : Res unit :=
  if NDEBUG then Ok tt
  else if cond then Ok tt else Throw InvalidStateError.

(** [if (p)] on a pointer. *)
Definition ptr_bool (p : option address) : bool :=
  match p with Some _ => true | None => false end.

(** ** Pointer types *)

(** The two pointer types of the header: [vTensor*] and [const vTensor*]. *)
Inductive Qualifier := mutable_ptr | const_ptr.

(** Implicit conversion between them: [const] can be added to the pointee,
    never dropped. *)
Definition converts_to (from to : Qualifier) : bool :=
  match from, to with
  | const_ptr, mutable_ptr => false
  | _, _ => true
  end.

(** A call whose parameter has the pointer type [to] and whose argument has
    the pointer type [from].  Without an implicit conversion the call is
    rejected when the program is compiled, before anything runs. *)
Definition pass_pointer {A} (from to : Qualifier) (call : Res A) : Res A :=
  if converts_to from to then call else IllFormed.

(** ** Members of [vTensor::Future] *)

(** [Future(vTensor* tensor) : tensor_(tensor)
      { TORCH_INTERNAL_ASSERT_DEBUG_ONLY(tensor_, ...); }]
    The object is built at address [this]. *)
Definition Future_ctor (NDEBUG : bool) (Ty : string) (access : Access.Flags)
    (this : address) (tensor : option address) (w : World) : Res World :=
  let f := {| Type_ := Ty; kAccess := access; tensor_ := tensor |} in
  _ ← TORCH_INTERNAL_ASSERT_DEBUG_ONLY NDEBUG (ptr_bool (tensor_ f));
  Ok (with_futures (<[this := f]> (futures w)) w).

(** [Future(Future&& future) : tensor_(std::move(future.tensor_))
      { future.tensor_ = nullptr; }]
    The new object, of the type of [future], is built at [this]. *)
Definition Future_move_ctor (this future : address) (w : World) : Res World :=
  src ← deref (futures w) future;
  let fs1 := <[this := set_tensor_ (tensor_ src) src]> (futures w) in
  src1 ← deref fs1 future;
  Ok (with_futures (<[future := set_tensor_ nullptr src1]> fs1) w).

(** Two futures are objects of one class [Future<Type, kAccess>]. *)
Definition same_type (f g : Future) : bool :=
  String.eqb (Type_ f) (Type_ g) && (kAccess f =? kAccess g).

(** [Future& operator=(Future&& future) &
      { tensor_ = std::move(future.tensor_); future.tensor_ = nullptr;
        return *this; }]
    The parameter is a [Future&&] of the class of [*this]: a future of
    another [Future<T, A>] does not bind to it.  [this] and [future] are
    references: they may designate one object. *)
Definition Future_move_assign (this future : address) (w : World) : Res World :=
  dst ← deref (futures w) this;
  src ← deref (futures w) future;
  if same_type src dst then
    let fs1 := <[this := set_tensor_ (tensor_ src) dst]> (futures w) in
    src1 ← deref fs1 future;
    Ok (with_futures (<[future := set_tensor_ nullptr src1]> fs1) w)
  else IllFormed.

Section Converting.

(** [std::is_convertible<Access::Pointer<T, A>,
                         Access::Pointer<Type, kAccess>>::value], the
    condition of the alias [is_convertible<T, A>] inside
    [Future<Type, kAccess>].  [Access::Pointer] is declared in
    api/Resource.h, outside these sources, so the trait is a parameter:
    [is_convertible T A Type kAccess]. *)
Variable is_convertible :
  string -> Access.Flags -> string -> Access.Flags -> bool.

(** [template<typename T, Access::Flags A, typename = is_convertible<T, A>>
    Future(Future<T, A>&& future) : tensor_(std::move(future.tensor_))
      { future.tensor_ = nullptr; }]
    A [Future<Ty, access>] is built at [this]. *)
Definition Future_converting_ctor (Ty : string) (access : Access.Flags)
    (this future : address) (w : World) : Res World :=
  src ← deref (futures w) future;
  if is_convertible (Type_ src) (kAccess src) Ty access then
    let f := {| Type_ := Ty; kAccess := access; tensor_ := tensor_ src |} in
    let fs1 := <[this := f]> (futures w) in
    src1 ← deref fs1 future;
    Ok (with_futures (<[future := set_tensor_ nullptr src1]> fs1) w)
  else IllFormed.

(** [template<typename T, Access::Flags A, typename = is_convertible<T, A>>
    Future& operator=(Future<T, A>&& future) &
      { tensor_ = std::move(future.tensor_); future.tensor_ = nullptr;
        return *this; }] *)
Definition Future_converting_assign (this future : address) (w : World)
    : Res World :=
  dst ← deref (futures w) this;
  src ← deref (futures w) future;
  if is_convertible (Type_ src) (kAccess src) (Type_ dst) (kAccess dst) then
    let fs1 := <[this := set_tensor_ (tensor_ src) dst]> (futures w) in
    src1 ← deref fs1 future;
    Ok (with_futures (<[future := set_tensor_ nullptr src1]> fs1) w)
  else IllFormed.

End Converting.

(** [~Future() { if (tensor_ && (kAccess & vTensor::Access::Write))
      { // tensor->upload_eagerly(); } }]
    The guarded block is empty; afterwards the object is gone. *)
Definition Future_dtor (this : address) (w : World) : Res World :=
  f ← deref (futures w) this;
  let w1 :=
    if ptr_bool (tensor_ f) && Access.has Access.Write (kAccess f)
    then w
    else w in
  Ok (with_futures (delete this (futures w1)) w1).

(** Modelled from the spec: [Memory::map<Type, kAccess>], called as
    [buffer.memory.template map<Type, kAccess>()], belongs to the absent
    api/Resource.h.  It "maps the representation's memory and returns a
    Mapped Payload carrying the requested access right"; it is given the
    allocation and nothing of the tensor. *)
Definition Memory_map (Ty : string) (access : Access.Flags)
    (m : Resource.Memory) (w : World) : Payload * World :=
  ({| payload_memory := m; payload_type := Ty; payload_access := access |},
   emit (EvMap m access) w).

(** [Payload wait() const &
      { TORCH_CHECK(tensor_, ...);
        api::Resource::Buffer& buffer =
          tensor_->staging_ ? tensor_->staging_ : tensor_->buffer_;
        return buffer.memory.template map<Type, kAccess>(); }] *)
Definition Future_wait (this : address) (w : World) : Res (Payload * World) :=
  f ← deref (futures w) this;
  _ ← TORCH_CHECK (ptr_bool (tensor_ f));
  match tensor_ f with
  | None => Undefined
  | Some t =>
      v ← deref (tensors w) t;
      let buffer :=
        if Resource.Buffer_bool (staging_ v) then staging_ v else buffer_ v in
      Ok (Memory_map (Type_ f) (kAccess f) (Resource.buffer_memory buffer) w)
  end.

(** ** Dirty-flag bookkeeping *)

Definition get_flag (R : Rep) (d : Dirty) : bool :=
  match R with
  | Image => image d
  | Buffer => buffer d
  | Staging => staging d
  end.

Definition set_flag (R : Rep) (b : bool) (d : Dirty) : Dirty :=
  match R with
  | Image => {| image := b; buffer := buffer d; staging := staging d |}
  | Buffer => {| image := image d; buffer := b; staging := staging d |}
  | Staging => {| image := image d; buffer := buffer d; staging := b |}
  end.

(** The two other representations. *)
Definition siblings (R : Rep) : Rep * Rep :=
  match R with
  | Image => (Buffer, Staging)
  | Buffer => (Image, Staging)
  | Staging => (Buffer, Image)
  end.

(** At most two of the three flags are set. *)
Definition at_most_two (d : Dirty) : bool :=
  negb (image d && buffer d && staging d).

Definition with_dirty (d : Dirty) (v : vTensor) : vTensor :=
  {| image_ := image_ v; buffer_ := buffer_ v; staging_ := staging_ v;
     context_ := context_ v; sizes_ := sizes_ v; options_ := options_ v;
     dirty_ := d |}.

(** ** The accessors

    [buffer], [image] and the private [host] overloads are declared in the
    header and defined elsewhere; the public [host] templates are defined in
    the header on top of the private ones. *)

Module Model.

Import Access.

(** Modelled from the spec: step 3 of the synchronization algorithm, which
    belongs to [vTensor::buffer], [vTensor::image] and the private
    [vTensor::host] overloads, all defined outside these sources.  "Clear
    dirty(R); set dirty(S1) and dirty(S2) unconditionally." *)
Definition written (R : Rep) (d : Dirty) : Dirty :=
  let '(S1, S2) := siblings R in
  set_flag S2 true (set_flag S1 true (set_flag R false d)).

(** Modelled from the spec: step 2 of the same algorithm, "select a clean
    representation among {S1, S2}".  The text does not say which one is
    taken when both are clean; the first clean sibling is. *)
Definition select_clean (R : Rep) (d : Dirty) : option Rep :=
  let '(S1, S2) := siblings R in
  if negb (get_flag S1 d) then Some S1
  else if negb (get_flag S2 d) then Some S2
  else None.

Section Sync.

(** The copy-or-convert primitive of the command-submission collaborator:
    [convert src dst] tells whether the transfer from [src] into [dst]
    succeeds. *)
Variable convert : Rep -> Rep -> bool.

(** What the read of a dirty representation does on a view that has no
    clean representation at all.  The specification describes that read for
    a view that has a clean one, which "Invariant I1 guarantees ... once the
    tensor has been written at least once", and says nothing of the view
    that has none; its outcome is left open. *)
Variable unwritten : Rep -> Flags -> Dirty -> Res (list Event * Dirty).

(** Modelled from the spec: the synchronization algorithm of the
    accessors, which are defined outside these sources.
    1. If Write is in [access], skip to step 3.
    2. If Read is in [access] and [R] is dirty: select a clean sibling,
       run the conversion from it into [R], clear dirty(R).
    3. If Write is in [access]: clear dirty(R), set both siblings.
    A failed conversion leaves the flag set and is propagated.  Where step 2
    finds no clean sibling the outcome is [unwritten]. *)
Definition sync (R : Rep) (access : Flags) (d : Dirty)
    : Res (list Event * Dirty) :=
  if has Write access then Ok ([], written R d)
  else if has Read access && get_flag R d then
    match select_clean R d with
    | Some src =>
        if convert src R then Ok ([EvConvert src R], set_flag R false d)
        else Throw ConversionFailureError
    | None => unwritten R access d
    end
  else Ok ([], d).

(** Modelled from the spec: host access is backed by "the staging buffer
    if present, else the device buffer". *)
Definition host_rep (v : vTensor) : Rep :=
  if Resource.Buffer_bool (staging_ v) then Staging else Buffer.

(** The public accessors of [vTensor], as the header declares them:
    [host<Type>() const &], [host<Type, kAccess>() &], [buffer() const &],
    [buffer(Access::Flags) &], [image() const &], [image(Access::Flags) &]. *)
Inductive Call :=
  | host_const
  | host_access (access : Flags)
  | buffer_const
  | buffer_access (access : Flags)
  | image_const
  | image_access (access : Flags).

(** Modelled from the spec: the representation a call asks for; host access
    goes to the host-facing one. *)
Definition target (c : Call) (v : vTensor) : Rep :=
  match c with
  | host_const | host_access _ => host_rep v
  | buffer_const | buffer_access _ => Buffer
  | image_const | image_access _ => Image
  end.

(** Modelled from the spec: the accessors of a read-only view grant
    Read; the others grant the flags they are given. *)
Definition intent (c : Call) : Flags :=
  match c with
  | host_const | buffer_const | image_const => Read
  | host_access a | buffer_access a | image_access a => a
  end.

(** Modelled from the spec: an accessor runs the synchronization
    algorithm on its representation and updates [dirty_]. *)
Definition perform (c : Call) (v : vTensor) : Res (list Event * vTensor) :=
  '(evs, d) ← sync (target c v) (intent c) (dirty_ v);
  Ok (evs, with_dirty d v).

(** The views a sequence of calls leaves behind, one per completed call;
    a call that fails ends the sequence. *)
Fixpoint run (cs : list Call) (v : vTensor) : list vTensor :=
  match cs with
  | [] => []
  | c :: cs' =>
      match perform c v with
      | Ok (_, v1) => v1 :: run cs' v1
      | _ => []
      end
  end.

(** Modelled from the spec: the private [const vTensor* host() const] and
    [vTensor* host(Access::Flags)], which synchronize the host-facing
    representation and return [this]. *)
Definition vTensor_private_host (access : Flags) (this : address)
    (w : World) : Res (address * World) :=
  v ← deref (tensors w) this;
  '(evs, v1) ← perform (host_access access) v;
  Ok (this,
      {| tensors := <[this := v1]> (tensors w);
         futures := futures w;
         log := log w ++ evs |}).

(** [template<typename Type>
    Future<Type, Access::Read> vTensor::host() const &
      { return Future<Type, vTensor::Access::Read>(host()); }]
    Inside a const member [host()] is the private
    [const vTensor* host() const]; its result is the argument of
    [explicit Future(vTensor* tensor)].  The returned future would be built
    at [result]. *)
Definition vTensor_host_const (NDEBUG : bool) (Ty : string)
    (this result : address) (w : World) : Res World :=
  pass_pointer const_ptr mutable_ptr
    ('(p, w1) ← vTensor_private_host Read this w;
     Future_ctor NDEBUG Ty Read result (Some p) w1).

(** [template<typename Type, Access::Flags kAccess>
    Future<Type, kAccess> vTensor::host() &
      { return Future<Type, kAccess>(host(kAccess)); }]
    Here the argument is the [vTensor*] of the private
    [vTensor* host(Access::Flags)]. *)
Definition vTensor_host (NDEBUG : bool) (Ty : string) (access : Flags)
    (this result : address) (w : World) : Res World :=
  pass_pointer mutable_ptr mutable_ptr
    ('(p, w1) ← vTensor_private_host access this w;
     Future_ctor NDEBUG Ty access result (Some p) w1).

(** The behaviour the specification words for [await()]: check the
    back-reference, run the synchronization algorithm on the host-facing
    representation, then map its memory.  Kept apart from [Future_wait],
    which is the code. *)
Definition await_as_specified (this : address) (w : World)
    : Res (Payload * World) :=
  f ← deref (futures w) this;
  _ ← TORCH_CHECK (ptr_bool (tensor_ f));
  match tensor_ f with
  | None => Undefined
  | Some t =>
      '(_, w1) ← vTensor_private_host (kAccess f) t w;
      Future_wait this w1
  end.

End Sync.

End Model.

(** ** Ref-qualified overloads *)

Module Overload.

(** Ref-qualifier of a member function: none, [&] or [&&]. *)
Inductive RefQualifier := ref_none | ref_lvalue | ref_rvalue.

(** Value category of the object expression of a call: a named object, or
    a temporary or expiring one. *)
Inductive ValueCategory := lvalue | rvalue.

(** A member function declaration: name, number of template parameters,
    number of function parameters, [const], ref-qualifier, [= delete],
    and whether it sits in a [private:] part. *)
Record Member := {
  m_name : string;
  m_tparams : nat;
  m_params : nat;
  m_const : bool;
  m_ref : RefQualifier;
  m_deleted : bool;
  m_private : bool
}.

(** A call [object.name<targs...>(args...)] from outside the class. *)
Record CallSite := {
  c_name : string;
  c_targs : nat;
  c_args : nat;
  c_const : bool;
  c_cat : ValueCategory
}.

(** The accessor declarations of [vTensor], in the order of the header. *)
Definition vTensor_members : list Member :=
  [ (* Future<Type, Access::Read> host() const &; *)
    Build_Member "host" 1 0 true ref_lvalue false false;
    (* Future<Type, kAccess> host() &; *)
    Build_Member "host" 2 0 false ref_lvalue false false;
    (* VkBuffer buffer() const &; *)
    Build_Member "buffer" 0 0 true ref_lvalue false false;
    (* VkBuffer buffer(Access::Flags access) &; *)
    Build_Member "buffer" 0 1 false ref_lvalue false false;
    (* VkImage image() const &; *)
    Build_Member "image" 0 0 true ref_lvalue false false;
    (* VkImage image(Access::Flags access) &; *)
    Build_Member "image" 0 1 false ref_lvalue false false;
    (* private: const vTensor* host() const; *)
    Build_Member "host" 0 0 true ref_none false true;
    (* private: vTensor* host(Access::Flags access); *)
    Build_Member "host" 0 1 false ref_none false true;
    (* Future<Type, Access::Read> host() const && = delete; *)
    Build_Member "host" 1 0 true ref_rvalue true true;
    (* Future<Type, kAccess> host() && = delete; *)
    Build_Member "host" 2 0 false ref_rvalue true true;
    (* VkBuffer buffer() const && = delete; *)
    Build_Member "buffer" 0 0 true ref_rvalue true true;
    (* VkBuffer buffer(Access::Flags access) && = delete; *)
    Build_Member "buffer" 0 1 false ref_rvalue true true;
    (* VkImage image() const && = delete; *)
    Build_Member "image" 0 0 true ref_rvalue true true;
    (* VkImage image(Access::Flags access) && = delete; *)
    Build_Member "image" 0 1 false ref_rvalue true true ].

(** The [wait] declarations of [vTensor::Future]. *)
Definition Future_members : list Member :=
  [ (* Payload wait() const &; *)
    Build_Member "wait" 0 0 true ref_lvalue false false;
    (* private: Payload wait() const && = delete; *)
    Build_Member "wait" 0 0 true ref_rvalue true true ].

Definition is_rvalue (k : ValueCategory) : bool :=
  match k with rvalue => true | lvalue => false end.

(** Can the implicit object parameter of [m] bind the object of the call?
    A non-const member needs a non-const object; [&] binds lvalues, and,
    when the member is const, rvalues too; [&&] binds rvalues only. *)
Definition binds (m : Member) (c : CallSite) : bool :=
  (negb (c_const c) || m_const m) &&
  match m_ref m with
  | ref_none => true
  | ref_lvalue => negb (is_rvalue (c_cat c)) || m_const m
  | ref_rvalue => is_rvalue (c_cat c)
  end.

(** Viable candidates: same name and number of arguments, the object
    binds, and the template arguments are all given explicitly, since no
    template parameter of these members occurs in a function parameter. *)
Definition viable (c : CallSite) (m : Member) : bool :=
  String.eqb (m_name m) (c_name c) &&
  Nat.eqb (m_tparams m) (c_targs c) &&
  Nat.eqb (m_params m) (c_args c) &&
  binds m c.

(** Ranking of the object binding among viable candidates: an rvalue
    reference, which only binds an rvalue, beats an lvalue reference; then
    the less cv-qualified one wins. *)
Definition rank (m : Member) : nat :=
  (match m_ref m with
   | ref_rvalue => 2
   | _ => 0
   end +
   if m_const m then 0 else 1)%nat.

Inductive Resolution :=
  | NoViable
  | Ambiguous
  | Chosen (m : Member).

(** The candidates that no other candidate outranks. *)
Definition best (ms : list Member) : list Member :=
  List.filter (fun m => forallb (fun m' => Nat.leb (rank m') (rank m)) ms) ms.

Definition resolve (ms : list Member) (c : CallSite) : Resolution :=
  match List.filter (viable c) ms with
  | [] => NoViable
  | vs =>
      match best vs with
      | [m] => Chosen m
      | _ => Ambiguous
      end
  end.

(** The call compiles: one best candidate, neither deleted nor private. *)
Definition callable (r : Resolution) : bool :=
  match r with
  | Chosen m => negb (m_deleted m) && negb (m_private m)
  | _ => false
  end.

End Overload.

(** ** A concrete program state *)

Module Example.

(** A four-element tensor that owns a device buffer and a staging buffer and
    no image yet.  The staging buffer is the authoritative representation:
    the host has written it, both device representations are stale. *)
Definition tensor : vTensor :=
  {| image_ := {| Resource.image_handle := 0;
                  Resource.image_memory := {| Resource.allocation := 0 |} |};
     buffer_ := {| Resource.buffer_handle := 11;
                   Resource.buffer_memory := {| Resource.allocation := 21 |} |};
     staging_ := {| Resource.buffer_handle := 12;
                    Resource.buffer_memory := {| Resource.allocation := 22 |} |};
     context_ := Some 9%positive;
     sizes_ := [4];
     options_ := 0;
     dirty_ := {| image := true; buffer := true; staging := false |} |}.

(** The same tensor after the device has written its buffer. *)
Definition tensor_device_written : vTensor :=
  with_dirty {| image := true; buffer := false; staging := true |} tensor.

(** A tensor without a staging buffer. *)
Definition tensor_unstaged : vTensor :=
  {| image_ := image_ tensor;
     buffer_ := buffer_ tensor;
     staging_ := {| Resource.buffer_handle := 0;
                    Resource.buffer_memory := {| Resource.allocation := 0 |} |};
     context_ := context_ tensor;
     sizes_ := sizes_ tensor;
     options_ := options_ tensor;
     dirty_ := dirty_ tensor |}.

(** A write future over [float], bound to the tensor at address 1. *)
Definition future : Future :=
  {| Type_ := "float"; kAccess := Access.Write; tensor_ := Some 1%positive |}.

(** The tensor at address 1, the future at address 2. *)
Definition world (v : vTensor) : World :=
  {| tensors := {[ 1%positive := v ]};
     futures := {[ 2%positive := future ]};
     log := [] |}.

(** A device whose transfers all succeed. *)
Definition device (src dst : Rep) : bool := true.

(** An instance for the outcome the specification leaves open: the read of
    a view without a clean representation is given no result. *)
Definition unwritten (R : Rep) (access : Access.Flags) (d : Dirty)
    : Res (list Event * Dirty) := Undefined.

End Example.

(** ** Ownership of the back-reference *)

(** The memory [wait] maps for a tensor: that of [staging_] when it is
    present, that of [buffer_] otherwise (the conditional of [wait]). *)
Definition host_memory (v : vTensor) : Resource.Memory :=
  Resource.buffer_memory
    (if Resource.Buffer_bool (staging_ v) then staging_ v else buffer_ v).

(** No two live futures hold a reference to the same tensor. *)
Definition sole_owner (fs : gmap address Future) : Prop :=
  forall (a b : address) (f g : Future) (t : address),
    fs !! a = Some f -> fs !! b = Some g ->
    tensor_ f = Some t -> tensor_ g = Some t -> a = b.

(** ** Copy and move members *)

Module Special.

Import Overload.

(** Initializing a new object from an argument, or assigning an argument to
    an existing object. *)
Inductive Kind := construction | assignment.

(** The parameter of a copy or move member: [const X&] or [X&&]. *)
Inductive ParamKind := by_const_lref | by_rref.

(** A copy or move member as declared: constructor or [operator=], its
    parameter, its ref-qualifier, whether it is a template over the type of
    the argument ([Future<T, A>&&]), whether that template carries the
    [is_convertible<T, A>] default argument, and [= delete]. *)
Record Member := {
  s_kind : Kind;
  s_param : ParamKind;
  s_ref : RefQualifier;
  s_template : bool;
  s_guarded : bool;
  s_deleted : bool
}.

(** A use [X object(argument)] or [object = argument]: the value categories
    of the object (immaterial for a construction) and of the argument,
    whether the argument has the very type of the object, and the value of
    [is_convertible] for the two types. *)
Record Use := {
  u_kind : Kind;
  u_obj : ValueCategory;
  u_arg : ValueCategory;
  u_same : bool;
  u_guard : bool
}.

(** The copy and move members of [vTensor::Future], in the order of the
    header. *)
Definition Future_members : list Member :=
  [ (* Future(const Future&) = delete; *)
    Build_Member construction by_const_lref ref_none false false true;
    (* Future& operator=(const Future&) = delete; *)
    Build_Member assignment by_const_lref ref_none false false true;
    (* Future(Future&&); *)
    Build_Member construction by_rref ref_none false false false;
    (* Future& operator=(Future&&) &; *)
    Build_Member assignment by_rref ref_lvalue false false false;
    (* Future& operator=(Future&&) && = delete; *)
    Build_Member assignment by_rref ref_rvalue false false true;
    (* template<typename T, Access::Flags A, typename = is_convertible<T, A>>
       Future(Future<T, A>&&); *)
    Build_Member construction by_rref ref_none true true false;
    (* template<typename T, Access::Flags A, typename = is_convertible<T, A>>
       Future& operator=(Future<T, A>&&) &; *)
    Build_Member assignment by_rref ref_lvalue true true false;
    (* template<typename T, Access::Flags A>
       Future& operator=(Future<T, A>&&) && = delete; *)
    Build_Member assignment by_rref ref_rvalue true false true ].

(** The copy and move members of [Persistent::Pool] (ops/Persistent.h). *)
Definition Pool_members : list Member :=
  [ (* Pool(const Pool&) = delete; *)
    Build_Member construction by_const_lref ref_none false false true;
    (* Pool& operator=(const Pool&) = delete; *)
    Build_Member assignment by_const_lref ref_none false false true;
    (* Pool(Pool&&) = default; *)
    Build_Member construction by_rref ref_none false false false;
    (* Pool& operator=(Pool&&) = default; *)
    Build_Member assignment by_rref ref_none false false false ].

Definition Kind_eqb (k1 k2 : Kind) : bool :=
  match k1, k2 with
  | construction, construction | assignment, assignment => true
  | _, _ => false
  end.

(** The object of an assignment binds to the member: [&] takes lvalues,
    [&&] rvalues, no ref-qualifier both.  A constructor has no object yet. *)
Definition binds_object (m : Member) (u : Use) : bool :=
  match u_kind u with
  | construction => true
  | assignment =>
      match s_ref m with
      | ref_none => true
      | ref_lvalue => negb (is_rvalue (u_obj u))
      | ref_rvalue => is_rvalue (u_obj u)
      end
  end.

(** A template member accepts an rvalue of any [Future<T, A>] for which its
    default template argument, if it has one, is well-formed. *)
Definition binds_template (m : Member) (u : Use) : bool :=
  is_rvalue (u_arg u) && (negb (s_guarded m) || u_guard u).

(** An argument of another type reaches a non-template member only through
    a temporary built by a usable converting constructor. *)
Definition converts (ms : list Member) (u : Use) : bool :=
  existsb
    (fun m =>
       Kind_eqb (s_kind m) construction && s_template m &&
       negb (s_deleted m) && binds_template m u)
    ms.

(** The argument binds to the parameter: [const X&] takes any argument of
    type [X], [X&&] an rvalue only. *)
Definition binds_argument (ms : list Member) (m : Member) (u : Use) : bool :=
  if s_template m then binds_template m u
  else if u_same u then
    match s_param m with
    | by_const_lref => true
    | by_rref => is_rvalue (u_arg u)
    end
  else converts ms u.

Definition viable (ms : list Member) (u : Use) (m : Member) : bool :=
  Kind_eqb (s_kind m) (u_kind u) && binds_object m u && binds_argument ms m u.

(** Ranking of viable candidates.  A direct reference binding beats a
    user-defined conversion, and among direct bindings of an rvalue the
    rvalue reference beats the const lvalue reference; with equal
    conversions a non-template beats a template. *)
Definition rank (u : Use) (m : Member) : nat :=
  ((if s_template m || u_same u
    then match s_param m with by_rref => 6 | by_const_lref => 4 end
    else 2) +
   if s_template m then 0 else 1)%nat.

Inductive Resolution :=
  | NoViable
  | Ambiguous
  | Chosen (m : Member).

Definition resolve (ms : list Member) (u : Use) : Resolution :=
  match List.filter (viable ms u) ms with
  | [] => NoViable
  | vs =>
      match
        List.filter
          (fun m => forallb (fun m' => Nat.leb (rank u m') (rank u m)) vs) vs
      with
      | [m] => Chosen m
      | _ => Ambiguous
      end
  end.

(** The use compiles: one best candidate, and it is not deleted. *)
Definition callable (r : Resolution) : bool :=
  match r with
  | Chosen m => negb (s_deleted m)
  | _ => false
  end.

End Special.

(** ** A state with two futures *)

Module Scenario.

(** A read future over [float] that holds no reference. *)
Definition reader : Future :=
  {| Type_ := "float"; kAccess := Access.Read; tensor_ := nullptr |}.

(** The tensor of [Example] at address 1, its write future at address 2, and
    the read future at address 3. *)
Definition world : World :=
  {| tensors := {[ 1%positive := Example.tensor ]};
     futures := {[ 2%positive := Example.future; 3%positive := reader ]};
     log := [] |}.

(** A write future over [float] that holds no reference: an object of the
    class of [Example.future]. *)
Definition spent : Future :=
  {| Type_ := "float"; kAccess := Access.Write; tensor_ := nullptr |}.

(** The tensor at address 1, its write future at address 2, and the spent
    write future at address 3. *)
Definition writers : World :=
  {| tensors := {[ 1%positive := Example.tensor ]};
     futures := {[ 2%positive := Example.future; 3%positive := spent ]};
     log := [] |}.

(** The tensor alone, with no future yet. *)
Definition bare : World :=
  {| tensors := {[ 1%positive := Example.tensor ]};
     futures := ∅;
     log := [] |}.

(** A conversion trait that admits every conversion. *)
Definition permissive (T : string) (A : Access.Flags) (Ty : string)
    (access : Access.Flags) : bool := true.

End Scenario.

(** * Properties *)

(** ** Auxiliary facts *)

Lemma bind_Ok {A B} (a : A) (k : A -> Res B) : (Ok a ≫= k) = k a.
Proof. reflexivity. Qed.

Lemma deref_Some {A} (m : gmap address A) (p : address) (a : A) :
  m !! p = Some a -> deref m p = Ok a.
Proof. intros H. unfold deref. by rewrite H. Qed.

Lemma deref_insert {A} (m : gmap address A) (p q : address) (a b : A) :
  m !! q = Some b ->
  exists c, deref (<[p := a]> m) q = Ok c /\ (p = q -> c = a) /\ (p <> q -> c = b).
Proof.
  intros H. destruct (decide (p = q)) as [->|Hne].
  - exists a. split; [apply deref_Some, lookup_insert_eq | by split].
  - exists b. split; [apply deref_Some; by rewrite lookup_insert_ne | by split].
Qed.

Lemma same_type_refl (f : Future) : same_type f f = true.
Proof. unfold same_type. by rewrite String.eqb_refl, Z.eqb_refl. Qed.

(** A future without a back-reference cannot be awaited. *)
Lemma Future_wait_null (w : World) (this : address) (f : Future) :
  futures w !! this = Some f -> tensor_ f = None ->
  Future_wait this w = Throw InvalidStateError.
Proof.
  intros Hf Hnull. unfold Future_wait.
  rewrite (deref_Some _ _ _ Hf), bind_Ok, Hnull. reflexivity.
Qed.

(** A future bound to a live tensor maps the staging buffer when there is
    one and the device buffer otherwise, and does nothing else. *)
Lemma Future_wait_valid (w : World) (this t : address) (f : Future)
    (v : vTensor) :
  futures w !! this = Some f -> tensor_ f = Some t -> tensors w !! t = Some v ->
  Future_wait this w =
    Ok (Memory_map (Type_ f) (kAccess f)
          (Resource.buffer_memory
             (if Resource.Buffer_bool (staging_ v) then staging_ v
              else buffer_ v)) w).
Proof.
  intros Hf Ht Hv. unfold Future_wait.
  rewrite (deref_Some _ _ _ Hf), bind_Ok, Ht. cbn.
  rewrite (deref_Some _ _ _ Hv), bind_Ok. reflexivity.
Qed.

(** Both move constructors and both move assignments end with
    [future.tensor_ = nullptr]: whatever was stored at [this] first, the
    source is left without a reference. *)
Lemma moved_from_is_null (w : World) (this future : address) (f g : Future) :
  futures w !! future = Some f ->
  exists f1,
    deref (<[this := g]> (futures w)) future = Ok f1 /\
    futures (with_futures
               (<[future := set_tensor_ nullptr f1]>
                  (<[this := g]> (futures w))) w) !! future
    = Some (set_tensor_ nullptr f1).
Proof.
  intros Hf. destruct (deref_insert (futures w) this future g f Hf)
    as (f1 & Hd & _). exists f1. split; [done|]. cbn. apply lookup_insert_eq.
Qed.

(** ** Moved-from futures *)

(** C1.  After a future B has been move-constructed from a future A, by the
    move constructor or by the converting move constructor where the
    conversion is admitted, [wait] on A throws [InvalidStateError]: A holds
    no tensor reference any more, and B, when it is another object, holds
    the reference A had. *)
Theorem moved_from_future_wait_fails
    (is_convertible : string -> Access.Flags -> string -> Access.Flags -> bool)
    (w : World) (A B : address) (f : Future) (Ty : string)
    (access : Access.Flags) :
  futures w !! A = Some f ->
  (exists w',
      Future_move_ctor B A w = Ok w' /\
      tensor_ <$> futures w' !! A = Some nullptr /\
      (A <> B -> tensor_ <$> futures w' !! B = Some (tensor_ f)) /\
      Future_wait A w' = Throw InvalidStateError) /\
  (is_convertible (Type_ f) (kAccess f) Ty access = true ->
   exists w',
      Future_converting_ctor is_convertible Ty access B A w = Ok w' /\
      tensor_ <$> futures w' !! A = Some nullptr /\
      (A <> B -> tensor_ <$> futures w' !! B = Some (tensor_ f)) /\
      Future_wait A w' = Throw InvalidStateError).
Proof.
  intros Hf. split.
  - unfold Future_move_ctor. rewrite (deref_Some _ _ _ Hf), bind_Ok. cbn zeta.
    destruct (moved_from_is_null w B A f (set_tensor_ (tensor_ f) f) Hf)
      as (f1 & Hd & Hl).
    rewrite Hd, bind_Ok. eexists. split; [reflexivity|].
    split; [by rewrite Hl|]. split.
    + intros Hne. cbn. rewrite lookup_insert_ne by done.
      by rewrite lookup_insert_eq.
    + by apply (Future_wait_null _ _ _ Hl).
  - intros Hc. unfold Future_converting_ctor.
    rewrite (deref_Some _ _ _ Hf), bind_Ok, Hc. cbn zeta.
    destruct (moved_from_is_null w B A f
                {| Type_ := Ty; kAccess := access; tensor_ := tensor_ f |} Hf)
      as (f1 & Hd & Hl).
    rewrite Hd, bind_Ok. eexists. split; [reflexivity|].
    split; [by rewrite Hl|]. split.
    + intros Hne. cbn. rewrite lookup_insert_ne by done.
      by rewrite lookup_insert_eq.
    + by apply (Future_wait_null _ _ _ Hl).
Qed.

Lemma moved_from_future_wait_fails_witness :
  futures (Example.world Example.tensor) !! 2%positive = Some Example.future /\
  exists w',
    Future_move_ctor 3%positive 2%positive (Example.world Example.tensor)
      = Ok w' /\
    tensor_ <$> futures w' !! 3%positive = Some (Some 1%positive) /\
    Future_wait 2%positive w' = Throw InvalidStateError.
Proof.
  split; [reflexivity|].
  destruct (moved_from_future_wait_fails (fun _ _ _ _ => true)
              (Example.world Example.tensor) 2%positive 3%positive
              Example.future "float" Access.Write eq_refl)
    as [(w' & Hm & _ & HB & Hw) _].
  exists w'. split; [exact Hm|]. split; [|exact Hw].
  apply HB. discriminate.
Defined.

(** C10.  Move-assigning a future to itself leaves it without a reference:
    [tensor_ = std::move(future.tensor_)] keeps the pointer and
    [future.tensor_ = nullptr] then clears it in the one object there is.  No
    other future changes, the tensors do not change, and [wait] on the
    future throws [InvalidStateError]. *)
Theorem self_move_assign_drops_reference (w : World) (this t : address)
    (f : Future) :
  futures w !! this = Some f -> tensor_ f = Some t ->
  exists w',
    Future_move_assign this this w = Ok w' /\
    futures w' !! this = Some (set_tensor_ nullptr f) /\
    (forall other, other <> this -> futures w' !! other = futures w !! other) /\
    tensors w' = tensors w /\
    Future_wait this w' = Throw InvalidStateError.
Proof.
  intros Hf _. unfold Future_move_assign.
  rewrite (deref_Some _ _ _ Hf), !bind_Ok, same_type_refl. cbn zeta.
  rewrite (deref_Some _ _ (set_tensor_ (tensor_ f) f)) by apply lookup_insert_eq.
  rewrite bind_Ok. eexists. split; [reflexivity|].
  assert (Hl : futures (with_futures
            (<[this := set_tensor_ nullptr (set_tensor_ (tensor_ f) f)]>
               (<[this := set_tensor_ (tensor_ f) f]> (futures w))) w) !! this
          = Some (set_tensor_ nullptr f)).
  { cbn. by rewrite lookup_insert_eq. }
  split; [exact Hl|]. split.
  - intros other Hne. cbn. by rewrite !lookup_insert_ne.
  - split; [reflexivity|]. by apply (Future_wait_null _ _ _ Hl).
Qed.

Lemma self_move_assign_drops_reference_witness :
  (futures (Example.world Example.tensor) !! 2%positive = Some Example.future /\
   tensor_ Example.future = Some 1%positive) /\
  exists w',
    Future_move_assign 2%positive 2%positive (Example.world Example.tensor)
      = Ok w' /\
    Future_wait 2%positive w' = Throw InvalidStateError.
Proof.
  split; [split; reflexivity|].
  destruct (self_move_assign_drops_reference (Example.world Example.tensor)
              2%positive 1%positive Example.future eq_refl eq_refl)
    as (w' & Hm & _ & _ & _ & Hw).
  exists w'. split; [exact Hm | exact Hw].
Defined.

(** ** Awaiting a future *)

(** C2.  Awaiting a future that is bound to a live tensor maps the memory of
    the staging buffer when the tensor has one and the memory of the device
    buffer otherwise; this mapping is the only call [wait] issues, so no
    other representation is mapped. *)
Theorem wait_maps_staging_else_buffer (w : World) (this t : address)
    (f : Future) (v : vTensor) :
  futures w !! this = Some f -> tensor_ f = Some t -> tensors w !! t = Some v ->
  exists p w',
    Future_wait this w = Ok (p, w') /\
    payload_memory p =
      (if Resource.Buffer_bool (staging_ v)
       then Resource.buffer_memory (staging_ v)
       else Resource.buffer_memory (buffer_ v)) /\
    payload_access p = kAccess f /\
    log w' = log w ++ [EvMap (payload_memory p) (kAccess f)].
Proof.
  intros Hf Ht Hv. rewrite (Future_wait_valid w this t f v Hf Ht Hv).
  unfold Memory_map. eexists _, _. split; [reflexivity|]. cbn.
  by destruct (Resource.Buffer_bool (staging_ v)).
Qed.

Lemma wait_maps_staging_else_buffer_witness :
  (futures (Example.world Example.tensor_unstaged) !! 2%positive
     = Some Example.future /\
   tensor_ Example.future = Some 1%positive /\
   tensors (Example.world Example.tensor_unstaged) !! 1%positive
     = Some Example.tensor_unstaged) /\
  exists p w',
    Future_wait 2%positive (Example.world Example.tensor_unstaged)
      = Ok (p, w') /\
    payload_memory p = {| Resource.allocation := 21 |} /\
    log w' = [EvMap {| Resource.allocation := 21 |} Access.Write].
Proof.
  split; [repeat split; reflexivity|].
  destruct (wait_maps_staging_else_buffer
              (Example.world Example.tensor_unstaged) 2%positive 1%positive
              Example.future Example.tensor_unstaged eq_refl eq_refl eq_refl)
    as (p & w' & Hw & Hm & _ & Hl).
  exists p, w'. split; [exact Hw|]. split; [exact Hm|].
  rewrite Hl, Hm. reflexivity.
Defined.

(** C5, as the specification words it, fails.  On a tensor whose buffer the
    device has written since the future was handed out, the synchronization
    algorithm run for a write future would mark the staging buffer clean and
    the image and the buffer dirty; [wait] leaves the flags as they are and
    only maps the memory. *)
Lemma wait_runs_no_synchronization :
  exists p w1 w2,
    Future_wait 2%positive (Example.world Example.tensor_device_written)
      = Ok (p, w1) /\
    Model.await_as_specified Example.device Example.unwritten 2%positive
      (Example.world Example.tensor_device_written) = Ok (p, w2) /\
    dirty_ <$> tensors w1 !! 1%positive
      = Some {| image := true; buffer := false; staging := true |} /\
    dirty_ <$> tensors w2 !! 1%positive
      = Some {| image := true; buffer := true; staging := false |}.
Proof. eexists _, _, _. repeat split. Qed.

(** C5, amended.  Awaiting a future that is bound to a live tensor maps the
    memory of the host-facing representation and returns the payload; it
    runs no synchronization of its own: the tensors, and so their dirty
    flags, and the futures are unchanged, and the mapping is the only call
    issued, with no conversion before it. *)
Theorem wait_only_maps (w : World) (this t : address) (f : Future)
    (v : vTensor) :
  futures w !! this = Some f -> tensor_ f = Some t -> tensors w !! t = Some v ->
  exists p w',
    Future_wait this w = Ok (p, w') /\
    tensors w' = tensors w /\
    futures w' = futures w /\
    log w' =
      log w ++
      [EvMap (Resource.buffer_memory
                (match Model.host_rep v with
                 | Staging => staging_ v
                 | _ => buffer_ v
                 end)) (kAccess f)].
Proof.
  intros Hf Ht Hv. rewrite (Future_wait_valid w this t f v Hf Ht Hv).
  unfold Memory_map, Model.host_rep. eexists _, _. split; [reflexivity|]. cbn.
  by destruct (Resource.Buffer_bool (staging_ v)).
Qed.

Lemma wait_only_maps_witness :
  (futures (Example.world Example.tensor_device_written) !! 2%positive
     = Some Example.future /\
   tensor_ Example.future = Some 1%positive /\
   tensors (Example.world Example.tensor_device_written) !! 1%positive
     = Some Example.tensor_device_written) /\
  exists p w',
    Future_wait 2%positive (Example.world Example.tensor_device_written)
      = Ok (p, w') /\
    tensors w' = tensors (Example.world Example.tensor_device_written) /\
    log w' = [EvMap {| Resource.allocation := 22 |} Access.Write].
Proof.
  split; [repeat split; reflexivity|].
  destruct (wait_only_maps
              (Example.world Example.tensor_device_written) 2%positive
              1%positive Example.future Example.tensor_device_written
              eq_refl eq_refl eq_refl)
    as (p & w' & Hw & Ht & _ & Hl).
  exists p, w'. split; [exact Hw|]. split; [exact Ht|].
  rewrite Hl. reflexivity.
Defined.

(** ** End of life *)

(** The destructor has no effect on the tensors or on the collaborators,
    whatever the future. *)
Lemma Future_dtor_no_effect (w : World) (this : address) (f : Future) :
  futures w !! this = Some f ->
  Future_dtor this w = Ok (with_futures (delete this (futures w)) w).
Proof.
  intros Hf. unfold Future_dtor. rewrite (deref_Some _ _ _ Hf), bind_Ok.
  by destruct (ptr_bool (tensor_ f) && Access.has Access.Write (kAccess f)).
Qed.

(** C6.  Destroying a write future that is still bound to its tensor, while
    the host-written staging buffer is the only clean representation, leaves
    the tensor as it was and issues no call: nothing is uploaded. *)
Theorem write_future_dtor_uploads_nothing :
  ptr_bool (tensor_ Example.future)
    && Access.has Access.Write (kAccess Example.future) = true /\
  exists w',
    Future_dtor 2%positive (Example.world Example.tensor) = Ok w' /\
    tensors w' = tensors (Example.world Example.tensor) /\
    log w' = log (Example.world Example.tensor) /\
    futures w' !! 2%positive = None.
Proof.
  split; [reflexivity|].
  rewrite (Future_dtor_no_effect (Example.world Example.tensor) 2%positive
             Example.future eq_refl).
  eexists. split; [reflexivity|]. repeat split.
Qed.

(** ** Construction *)

(** C7, as the specification words it, fails: in a release build the
    assertion of the constructor is not compiled in, and a future is built
    from a null pointer. *)
Lemma null_construction_succeeds_in_release :
  Future_ctor true "float" Access.Read 2%positive nullptr
    (Example.world Example.tensor)
  = Ok (with_futures
          (<[2%positive := {| Type_ := "float"; kAccess := Access.Read;
                              tensor_ := nullptr |}]>
             (futures (Example.world Example.tensor)))
          (Example.world Example.tensor)).
Proof. reflexivity. Qed.

(** C7, amended.  Constructing a future from a null tensor pointer fails
    with [InvalidStateError] at construction in a debug build.  In a release
    build the construction succeeds and yields a future without a
    reference, on which [wait] fails with [InvalidStateError]. *)
Theorem null_construction_checked_in_debug_only (Ty : string)
    (access : Access.Flags) (this : address) (w : World) :
  Future_ctor false Ty access this nullptr w = Throw InvalidStateError /\
  exists w',
    Future_ctor true Ty access this nullptr w = Ok w' /\
    futures w' !! this
      = Some {| Type_ := Ty; kAccess := access; tensor_ := nullptr |} /\
    Future_wait this w' = Throw InvalidStateError.
Proof.
  split; [reflexivity|]. eexists. split; [reflexivity|].
  assert (Hl : futures (with_futures
            (<[this := {| Type_ := Ty; kAccess := access;
                          tensor_ := nullptr |}]> (futures w)) w) !! this
          = Some {| Type_ := Ty; kAccess := access; tensor_ := nullptr |}).
  { cbn. apply lookup_insert_eq. }
  split; [exact Hl|]. by apply (Future_wait_null _ _ _ Hl).
Qed.

(** ** Dirty flags under the accessors *)

Lemma get_set_flag_same (R : Rep) (b : bool) (d : Dirty) :
  get_flag R (set_flag R b d) = b.
Proof. by destruct R. Qed.

Lemma get_set_flag_other (R Y : Rep) (b : bool) (d : Dirty) :
  Y <> R -> get_flag Y (set_flag R b d) = get_flag Y d.
Proof. by destruct R, Y. Qed.

(** What a write leaves behind does not depend on the flags before it. *)
Lemma written_flags (R Y : Rep) (d : Dirty) :
  get_flag Y (Model.written R d) = negb (bool_decide (Y = R)).
Proof. by destruct R, Y. Qed.

(** A write access never waits for a conversion and always completes. *)
Lemma sync_write (convert : Rep -> Rep -> bool)
    (unwritten : Rep -> Access.Flags -> Dirty -> Res (list Event * Dirty))
    (R : Rep) (access : Access.Flags) (d : Dirty) :
  Access.has Access.Write access = true ->
  Model.sync convert unwritten R access d = Ok ([], Model.written R d).
Proof. intros H. unfold Model.sync. by rewrite H. Qed.

(** A dirty representation without a clean sibling: all three flags are
    set. *)
Lemma no_clean_sibling (R : Rep) (d : Dirty) :
  get_flag R d = true -> Model.select_clean R d = None ->
  at_most_two d = false.
Proof. by destruct R, d as [[] [] []]. Qed.

Lemma clean_flag_at_most_two (R : Rep) (d : Dirty) :
  get_flag R d = false -> at_most_two d = true.
Proof.
  unfold at_most_two. destruct R; cbn; intros ->; cbn;
    rewrite ?andb_false_r; reflexivity.
Qed.

(** Whatever flags a call is given, also none, and whatever a read does on
    a view without a clean representation, a call keeps the bound once the
    bound holds. *)
Lemma perform_keeps_at_most_two (convert : Rep -> Rep -> bool)
    (unwritten : Rep -> Access.Flags -> Dirty -> Res (list Event * Dirty))
    (c : Model.Call) (v v' : vTensor) (evs : list Event) :
  at_most_two (dirty_ v) = true ->
  Model.perform convert unwritten c v = Ok (evs, v') ->
  at_most_two (dirty_ v') = true.
Proof.
  intros Hv. unfold Model.perform, Model.sync.
  destruct (Access.has Access.Write (Model.intent c)).
  - rewrite bind_Ok. intros [= _ <-]. cbn.
    apply (clean_flag_at_most_two (Model.target c v)).
    rewrite written_flags. by rewrite bool_decide_eq_true_2.
  - destruct (Access.has Access.Read (Model.intent c)); cbn [andb].
    + destruct (get_flag (Model.target c v) (dirty_ v)) eqn:Hd.
      * destruct (Model.select_clean (Model.target c v) (dirty_ v))
          as [src|] eqn:Hsel.
        -- destruct (convert src (Model.target c v)); [|discriminate].
           rewrite bind_Ok. intros [= _ <-]. cbn.
           apply (clean_flag_at_most_two (Model.target c v)),
             get_set_flag_same.
        -- rewrite (no_clean_sibling _ _ Hd Hsel) in Hv. discriminate Hv.
      * rewrite bind_Ok. intros [= _ <-]. exact Hv.
    + rewrite bind_Ok. intros [= _ <-]. exact Hv.
Qed.

(** C3.  An accessor called with Write intent completes, whatever the
    device does and whatever the flags were, and leaves the representation
    it was granted on clean and the two others dirty. *)
Theorem write_access_sets_flags (convert : Rep -> Rep -> bool)
    (unwritten : Rep -> Access.Flags -> Dirty -> Res (list Event * Dirty))
    (c : Model.Call) (v : vTensor) :
  Access.has Access.Write (Model.intent c) = true ->
  exists v',
    Model.perform convert unwritten c v = Ok ([], v') /\
    get_flag (Model.target c v) (dirty_ v') = false /\
    forall Y, Y <> Model.target c v -> get_flag Y (dirty_ v') = true.
Proof.
  intros Hw. unfold Model.perform.
  rewrite (sync_write convert unwritten _ _ (dirty_ v) Hw), bind_Ok.
  eexists. split; [reflexivity|]. cbn. split.
  - rewrite written_flags. by rewrite bool_decide_eq_true_2.
  - intros Y Hne. rewrite written_flags. by rewrite bool_decide_eq_false_2.
Qed.

Lemma write_access_sets_flags_witness :
  Access.has Access.Write (Model.intent (Model.image_access 3)) = true /\
  exists v',
    Model.perform Example.device Example.unwritten (Model.image_access 3)
      Example.tensor = Ok ([], v') /\
    dirty_ v' = {| image := false; buffer := true; staging := true |}.
Proof.
  split; [reflexivity|].
  destruct (write_access_sets_flags Example.device Example.unwritten
              (Model.image_access 3) Example.tensor eq_refl)
    as (v' & Hp & _ & _).
  exists v'. split; [exact Hp|].
  injection Hp as <-. reflexivity.
Defined.

(** C4.  On a view that has at most two of its three dirty flags set, as
    every view has once it has been written, any sequence of accessor calls
    keeps the bound: the view left by every completed call has at most two
    flags set, whatever flags the calls are given, whatever the device does,
    and whatever a read would do on a view without a clean representation. *)
Theorem at_most_two_dirty_after_each_access (convert : Rep -> Rep -> bool)
    (unwritten : Rep -> Access.Flags -> Dirty -> Res (list Event * Dirty))
    (cs : list Model.Call) (v : vTensor) :
  at_most_two (dirty_ v) = true ->
  Forall (fun v' => at_most_two (dirty_ v') = true)
    (Model.run convert unwritten cs v).
Proof.
  revert v. induction cs as [|c cs IH]; intros v Hv; cbn.
  - constructor.
  - destruct (Model.perform convert unwritten c v) as [[evs v1]| | |] eqn:Hp;
      try constructor.
    + exact (perform_keeps_at_most_two _ _ _ _ _ _ Hv Hp).
    + apply IH. exact (perform_keeps_at_most_two _ _ _ _ _ _ Hv Hp).
Qed.

Lemma at_most_two_dirty_after_each_access_witness :
  at_most_two (dirty_ Example.tensor) = true /\
  length (Model.run Example.device Example.unwritten
            [Model.host_const; Model.buffer_const; Model.buffer_access 0;
             Model.image_access 3]
            Example.tensor) = 4%nat /\
  Forall (fun v' => at_most_two (dirty_ v') = true)
    (Model.run Example.device Example.unwritten
       [Model.host_const; Model.buffer_const; Model.buffer_access 0;
        Model.image_access 3]
       Example.tensor).
Proof.
  split; [reflexivity|]. split; [reflexivity|].
  exact (at_most_two_dirty_after_each_access Example.device Example.unwritten
           _ Example.tensor eq_refl).
Defined.

(** ** Calls on expiring objects *)

Import Overload.

Lemma String_eqb_cases (s : string) :
  s = "host" \/ s = "buffer" \/ s = "image" \/
  (String.eqb "host" s = false /\ String.eqb "buffer" s = false /\
   String.eqb "image" s = false).
Proof.
  destruct (String.eqb_spec "host" s) as [<-|_]; [by left|].
  destruct (String.eqb_spec "buffer" s) as [<-|_]; [by right; left|].
  destruct (String.eqb_spec "image" s) as [<-|_]; [by right; right; left|].
  by right; right; right.
Qed.

(** C9.  No accessor of [vTensor] can be called on an expiring view,
    whatever the name, the template arguments, the arguments and the
    constness of the view: overload resolution ends on a deleted or an
    inaccessible declaration or finds none.  [wait] cannot be called on an
    expiring future, and can on a named one. *)
Theorem expiring_objects_rejected :
  (forall (name : string) (targs args : nat) (const : bool),
      callable (resolve vTensor_members
                  (Build_CallSite name targs args const rvalue)) = false) /\
  (forall (name : string) (targs args : nat) (const : bool),
      callable (resolve Future_members
                  (Build_CallSite name targs args const rvalue)) = false) /\
  (forall const : bool,
      callable (resolve Future_members
                  (Build_CallSite "wait" 0 0 const lvalue)) = true).
Proof.
  split; [|split].
  - intros name targs args const.
    destruct (String_eqb_cases name) as [->|[->|[->|(H1 & H2 & H3)]]].
    1-3: destruct const;
         destruct targs as [|[|[|targs]]]; destruct args as [|[|args]];
         reflexivity.
    unfold resolve, vTensor_members, viable; cbn -[String.eqb].
    rewrite H1, H2, H3. reflexivity.
  - intros name targs args const.
    destruct (String.eqb_spec "wait" name) as [<-|Hne].
    + destruct const; destruct targs as [|targs]; destruct args as [|args];
        reflexivity.
    + unfold resolve, Future_members, viable; cbn -[String.eqb].
      destruct (String.eqb_spec "wait" name) as [|_]; [done|]. reflexivity.
  - intros []; reflexivity.
Qed.

(** Overload resolution keeps the accessors for a named view: the const
    forms on any view, the forms that take access flags on a mutable one. *)
Lemma named_view_accessors_callable :
  forall const : bool,
    callable (resolve vTensor_members
                (Build_CallSite "host" 1 0 const lvalue)) = true /\
    callable (resolve vTensor_members
                (Build_CallSite "buffer" 0 0 const lvalue)) = true /\
    callable (resolve vTensor_members
                (Build_CallSite "image" 0 0 const lvalue)) = true /\
    callable (resolve vTensor_members
                (Build_CallSite "host" 2 0 false lvalue)) = true /\
    callable (resolve vTensor_members
                (Build_CallSite "buffer" 0 1 false lvalue)) = true /\
    callable (resolve vTensor_members
                (Build_CallSite "image" 0 1 false lvalue)) = true.
Proof. intros []; repeat split. Qed.

(** * Further properties of the header *)

(** ** Copying and moving futures and pools *)

(** X10.  A future is move-only.  Initializing or assigning from an lvalue
    is rejected, and so is any assignment into an expiring future.  From an
    rvalue of the same type the move members are taken; from an rvalue of
    another [Future<T, A>] the converting members are, exactly when
    [is_convertible<T, A>] holds. *)
Theorem future_is_move_only (u : Special.Use) :
  Special.callable (Special.resolve Special.Future_members u) =
    Overload.is_rvalue (Special.u_arg u)
    && (Special.u_same u || Special.u_guard u)
    && match Special.u_kind u with
       | Special.construction => true
       | Special.assignment => negb (Overload.is_rvalue (Special.u_obj u))
       end.
Proof. by destruct u as [[] [] [] [] []]. Qed.

(** X11.  A persistent pool cannot be copied: with an lvalue pool as
    argument neither an initialization nor an assignment compiles, whatever
    the object assigned to.  Only the deleted copy members accept an lvalue;
    the move members take [Pool&&]. *)
Theorem pool_is_not_copyable (kind : Special.Kind)
    (obj : Overload.ValueCategory) (guard : bool) :
  Special.resolve Special.Pool_members
    (Special.Build_Use kind obj Overload.lvalue true guard)
  = Special.Chosen
      (Special.Build_Member kind Special.by_const_lref Overload.ref_none
         false false true) /\
  Special.callable
    (Special.resolve Special.Pool_members
       (Special.Build_Use kind obj Overload.lvalue true guard)) = false.
Proof. by destruct kind, obj, guard. Qed.

(** ** Accessors of a read-only view *)

(** X9.  Through a const view only the accessors without access flags can be
    called: whatever the call, if it compiles on a const [vTensor], named or
    not, it has selected [host<Type>() const &], [buffer() const &] or
    [image() const &]; the forms that grant the flags they are given need a
    mutable view. *)
Theorem const_view_reaches_const_accessors (name : string) (targs args : nat)
    (cat : Overload.ValueCategory) :
  Overload.callable
    (Overload.resolve Overload.vTensor_members
       (Overload.Build_CallSite name targs args true cat)) = true ->
  exists m,
    Overload.resolve Overload.vTensor_members
      (Overload.Build_CallSite name targs args true cat)
      = Overload.Chosen m /\
    Overload.m_const m = true /\ Overload.m_params m = 0%nat /\
    Overload.m_ref m = Overload.ref_lvalue /\
    cat = Overload.lvalue /\
    (name = "host" /\ targs = 1%nat \/
     name = "buffer" /\ targs = 0%nat \/
     name = "image" /\ targs = 0%nat).
Proof.
  destruct (String_eqb_cases name) as [->|[->|[->|(H1 & H2 & H3)]]].
  1-3: destruct cat; destruct targs as [|[|[|targs]]];
       destruct args as [|[|args]]; cbn; try discriminate;
       intros _; eexists; repeat split; auto.
  cbn -[String.eqb]. unfold Overload.resolve, Overload.vTensor_members,
    Overload.viable; cbn -[String.eqb].
  rewrite H1, H2, H3. cbn. discriminate.
Qed.

Lemma const_view_reaches_const_accessors_witness :
  Overload.callable
    (Overload.resolve Overload.vTensor_members
       (Overload.Build_CallSite "buffer" 0 0 true Overload.lvalue)) = true /\
  exists m,
    Overload.resolve Overload.vTensor_members
      (Overload.Build_CallSite "buffer" 0 0 true Overload.lvalue)
      = Overload.Chosen m /\
    Overload.m_const m = true.
Proof.
  split; [reflexivity|].
  destruct (const_view_reaches_const_accessors "buffer" 0 0 Overload.lvalue
              eq_refl) as (m & Hr & Hc & _).
  exists m. split; [exact Hr | exact Hc].
Defined.

(** ** Moving the back-reference *)

(** The four move members all store one future at [this] and then clear the
    pointer of [future]; nothing else in the state changes. *)
Lemma move_shape
    (is_convertible : string -> Access.Flags -> string -> Access.Flags -> bool)
    (Ty : string) (access : Access.Flags) (this future : address)
    (w w' : World) :
  Future_move_ctor this future w = Ok w' \/
  Future_move_assign this future w = Ok w' \/
  Future_converting_ctor is_convertible Ty access this future w = Ok w' \/
  Future_converting_assign is_convertible this future w = Ok w' ->
  exists src g f1,
    futures w !! future = Some src /\
    tensor_ g = tensor_ src /\
    w' = with_futures
           (<[future := set_tensor_ nullptr f1]>
              (<[this := g]> (futures w))) w.
Proof.
  intros [H|[H|[H|H]]]; revert H.
  - unfold Future_move_ctor, deref.
    destruct (futures w !! future) as [src|] eqn:Hs; [|discriminate]; cbv beta iota.
    rewrite bind_Ok. cbn zeta.
    destruct (<[this := _]> (futures w) !! future) as [f1|];
      [|discriminate]; cbv beta iota.
    rewrite bind_Ok. intros [= <-]. by exists src, (set_tensor_ (tensor_ src) src), f1.
  - unfold Future_move_assign, deref.
    destruct (futures w !! this) as [dst|]; [|discriminate]; cbv beta iota.
    rewrite bind_Ok.
    destruct (futures w !! future) as [src|] eqn:Hs; [|discriminate]; cbv beta iota.
    rewrite bind_Ok.
    destruct (same_type src dst); [|discriminate]. cbn zeta.
    destruct (<[this := _]> (futures w) !! future) as [f1|];
      [|discriminate]; cbv beta iota.
    rewrite bind_Ok. intros [= <-]. by exists src, (set_tensor_ (tensor_ src) dst), f1.
  - unfold Future_converting_ctor, deref.
    destruct (futures w !! future) as [src|] eqn:Hs; [|discriminate]; cbv beta iota.
    rewrite bind_Ok.
    destruct (is_convertible _ _ _ _); [|discriminate]. cbn zeta.
    destruct (<[this := _]> (futures w) !! future) as [f1|];
      [|discriminate]; cbv beta iota.
    rewrite bind_Ok. intros [= <-].
    by exists src, {| Type_ := Ty; kAccess := access; tensor_ := tensor_ src |}, f1.
  - unfold Future_converting_assign, deref.
    destruct (futures w !! this) as [dst|]; [|discriminate]; cbv beta iota.
    rewrite bind_Ok.
    destruct (futures w !! future) as [src|] eqn:Hs; [|discriminate]; cbv beta iota.
    rewrite bind_Ok.
    destruct (is_convertible _ _ _ _); [|discriminate]. cbn zeta.
    destruct (<[this := _]> (futures w) !! future) as [f1|];
      [|discriminate]; cbv beta iota.
    rewrite bind_Ok. intros [= <-]. by exists src, (set_tensor_ (tensor_ src) dst), f1.
Qed.

Lemma transfer_sole_owner (fs : gmap address Future) (this future : address)
    (src g f1 : Future) :
  sole_owner fs -> fs !! future = Some src -> tensor_ g = tensor_ src ->
  sole_owner (<[future := set_tensor_ nullptr f1]> (<[this := g]> fs)).
Proof.
  intros Hu Hs Hg a b fa fb t Ha Hb Hta Htb.
  destruct (decide (future = a)) as [<-|Haf].
  { rewrite lookup_insert_eq in Ha. injection Ha as <-. discriminate Hta. }
  destruct (decide (future = b)) as [<-|Hbf].
  { rewrite lookup_insert_eq in Hb. injection Hb as <-. discriminate Htb. }
  rewrite lookup_insert_ne in Ha by done.
  rewrite lookup_insert_ne in Hb by done.
  destruct (decide (this = a)) as [<-|Hat]; destruct (decide (this = b)) as [<-|Hbt].
  - reflexivity.
  - rewrite lookup_insert_eq in Ha. injection Ha as <-.
    rewrite lookup_insert_ne in Hb by done. rewrite Hg in Hta.
    destruct Hbf. exact (Hu _ _ _ _ t Hs Hb Hta Htb).
  - rewrite lookup_insert_eq in Hb. injection Hb as <-.
    rewrite lookup_insert_ne in Ha by done. rewrite Hg in Htb.
    destruct Haf. exact (Hu _ _ _ _ t Hs Ha Htb Hta).
  - rewrite lookup_insert_ne in Ha by done.
    rewrite lookup_insert_ne in Hb by done.
    exact (Hu _ _ _ _ t Ha Hb Hta Htb).
Qed.

(** X6.  Moves never duplicate a reference.  If no two live futures refer
    to the same tensor, this still holds after a move construction, a move
    assignment, either converting move, and a destruction, whichever objects
    they are applied to, the same object twice included. *)
Theorem moves_keep_sole_owner
    (is_convertible : string -> Access.Flags -> string -> Access.Flags -> bool)
    (Ty : string) (access : Access.Flags) (this future : address)
    (w w' : World) :
  sole_owner (futures w) ->
  Future_move_ctor this future w = Ok w' \/
  Future_move_assign this future w = Ok w' \/
  Future_converting_ctor is_convertible Ty access this future w = Ok w' \/
  Future_converting_assign is_convertible this future w = Ok w' \/
  Future_dtor this w = Ok w' ->
  sole_owner (futures w').
Proof.
  intros Hu H.
  assert (Hm : (Future_move_ctor this future w = Ok w' \/
                Future_move_assign this future w = Ok w' \/
                Future_converting_ctor is_convertible Ty access this future w
                  = Ok w' \/
                Future_converting_assign is_convertible this future w = Ok w')
               \/ Future_dtor this w = Ok w') by tauto.
  clear H. destruct Hm as [Hm|Hd].
  - destruct (move_shape _ _ _ _ _ _ _ Hm) as (src & g & f1 & Hs & Hg & ->).
    cbn. by apply (transfer_sole_owner _ _ _ src).
  - revert Hd. unfold Future_dtor, deref.
    destruct (futures w !! this) as [f|]; [|discriminate]; cbv beta iota.
    rewrite bind_Ok.
    destruct (ptr_bool (tensor_ f) && Access.has Access.Write (kAccess f));
      intros [= <-]; cbn; intros a b fa fb t Ha Hb;
      apply lookup_delete_Some in Ha as [_ Ha];
      apply lookup_delete_Some in Hb as [_ Hb]; exact (Hu _ _ _ _ t Ha Hb).
Qed.

Lemma sole_owner_example :
  sole_owner (futures (Example.world Example.tensor)).
Proof.
  intros a b fa fb t Ha Hb _ _. cbn in Ha, Hb.
  apply lookup_singleton_Some in Ha as [<- _].
  apply lookup_singleton_Some in Hb as [<- _]. reflexivity.
Qed.

Lemma moves_keep_sole_owner_witness :
  (sole_owner (futures (Example.world Example.tensor)) /\
   Future_move_assign 2%positive 2%positive (Example.world Example.tensor)
   = Ok (with_futures {[ 2%positive := set_tensor_ nullptr Example.future ]}
           (Example.world Example.tensor))) /\
  sole_owner {[ 2%positive := set_tensor_ nullptr Example.future ]}.
Proof.
  split; [split; [exact sole_owner_example | reflexivity]|].
  exact (moves_keep_sole_owner (fun _ _ _ _ => true) "float" Access.Write
           2%positive 2%positive (Example.world Example.tensor) _
           sole_owner_example (or_intror (or_introl eq_refl))).
Defined.

(** X7.  Of all the members of a future only [wait] reaches the tensor or
    its collaborators: construction, the four moves and destruction leave
    every tensor, and so every dirty flag, and the log of calls as they
    were. *)
Theorem only_wait_reaches_the_tensor
    (is_convertible : string -> Access.Flags -> string -> Access.Flags -> bool)
    (NDEBUG : bool) (Ty : string) (access : Access.Flags)
    (tensor : option address) (this future : address) (w w' : World) :
  Future_ctor NDEBUG Ty access this tensor w = Ok w' \/
  Future_move_ctor this future w = Ok w' \/
  Future_move_assign this future w = Ok w' \/
  Future_converting_ctor is_convertible Ty access this future w = Ok w' \/
  Future_converting_assign is_convertible this future w = Ok w' \/
  Future_dtor this w = Ok w' ->
  tensors w' = tensors w /\ log w' = log w.
Proof.
  intros H.
  assert (Hm : Future_ctor NDEBUG Ty access this tensor w = Ok w' \/
               (Future_move_ctor this future w = Ok w' \/
                Future_move_assign this future w = Ok w' \/
                Future_converting_ctor is_convertible Ty access this future w
                  = Ok w' \/
                Future_converting_assign is_convertible this future w = Ok w')
               \/ Future_dtor this w = Ok w') by tauto.
  clear H. destruct Hm as [Hc|[Hm|Hd]].
  - revert Hc. unfold Future_ctor.
    destruct (TORCH_INTERNAL_ASSERT_DEBUG_ONLY _ _); try discriminate.
    rewrite bind_Ok. by intros [= <-].
  - by destruct (move_shape _ _ _ _ _ _ _ Hm) as (src & g & f1 & _ & _ & ->).
  - revert Hd. unfold Future_dtor, deref.
    destruct (futures w !! this) as [f|]; [|discriminate]; cbv beta iota.
    rewrite bind_Ok.
    by destruct (ptr_bool (tensor_ f) && Access.has Access.Write (kAccess f));
      intros [= <-].
Qed.

Lemma only_wait_reaches_the_tensor_witness :
  Future_dtor 2%positive (Example.world Example.tensor)
  = Ok (with_futures ∅ (Example.world Example.tensor)) /\
  tensors (with_futures ∅ (Example.world Example.tensor))
  = tensors (Example.world Example.tensor).
Proof.
  split; [reflexivity|].
  exact (proj1 (only_wait_reaches_the_tensor (fun _ _ _ _ => true) true
                  "float" Access.Write nullptr 2%positive 2%positive
                  (Example.world Example.tensor) _
                  (or_intror (or_intror (or_intror (or_intror
                     (or_intror eq_refl))))))).
Defined.

(** ** Awaiting after a move *)

(** What [wait] returns on a future bound to a live tensor, in terms of
    [host_memory]. *)
Lemma Future_wait_bound (w : World) (this t : address) (f : Future)
    (v : vTensor) :
  futures w !! this = Some f -> tensor_ f = Some t -> tensors w !! t = Some v ->
  Future_wait this w =
    Ok ({| payload_memory := host_memory v; payload_type := Type_ f;
           payload_access := kAccess f |},
        emit (EvMap (host_memory v) (kAccess f)) w).
Proof. intros Hf Ht Hv. by rewrite (Future_wait_valid w this t f v Hf Ht Hv). Qed.

(** X1.  Move assignment between two distinct futures of one class hands
    the reference over: the destination, whatever it held before, now awaits
    the tensor of the source, and the source has become a moved-from future
    on which [wait] throws.  A future of another class is not accepted. *)
Theorem move_assign_transfers (w : World) (dst src t : address)
    (fd fs : Future) (v : vTensor) :
  dst <> src ->
  futures w !! dst = Some fd -> futures w !! src = Some fs ->
  tensor_ fs = Some t -> tensors w !! t = Some v ->
  (same_type fs fd = false -> Future_move_assign dst src w = IllFormed) /\
  (same_type fs fd = true ->
   exists w',
     Future_move_assign dst src w = Ok w' /\
     futures w' =
       <[src := set_tensor_ nullptr fs]>
         (<[dst := set_tensor_ (Some t) fd]> (futures w)) /\
     Future_wait src w' = Throw InvalidStateError /\
     Future_wait dst w' =
       Ok ({| payload_memory := host_memory v; payload_type := Type_ fd;
              payload_access := kAccess fd |},
           emit (EvMap (host_memory v) (kAccess fd)) w')).
Proof.
  intros Hne Hd Hs Ht Hv. unfold Future_move_assign.
  rewrite (deref_Some _ _ _ Hd), bind_Ok, (deref_Some _ _ _ Hs), bind_Ok.
  split; intros ->; [reflexivity|]. cbn zeta.
  rewrite (deref_Some _ _ fs) by (by rewrite lookup_insert_ne).
  rewrite bind_Ok, Ht. eexists. split; [reflexivity|]. split; [reflexivity|].
  split.
  - apply (Future_wait_null _ _ (set_tensor_ nullptr fs)); [|done].
    cbn. apply lookup_insert_eq.
  - apply (Future_wait_bound _ _ t (set_tensor_ (Some t) fd) v); [|done..].
    cbn. rewrite lookup_insert_ne by done. apply lookup_insert_eq.
Qed.

Lemma move_assign_transfers_witness :
  (3%positive <> 2%positive /\
   futures Scenario.writers !! 3%positive = Some Scenario.spent /\
   futures Scenario.writers !! 2%positive = Some Example.future /\
   tensor_ Example.future = Some 1%positive /\
   tensors Scenario.writers !! 1%positive = Some Example.tensor /\
   same_type Example.future Scenario.spent = true) /\
  exists w',
    Future_move_assign 3%positive 2%positive Scenario.writers = Ok w' /\
    Future_wait 2%positive w' = Throw InvalidStateError /\
    Future_wait 3%positive w' =
      Ok ({| payload_memory := {| Resource.allocation := 22 |};
             payload_type := "float"; payload_access := Access.Write |},
          emit (EvMap {| Resource.allocation := 22 |} Access.Write) w').
Proof.
  assert (Hne : 3%positive <> 2%positive) by discriminate.
  split; [repeat split; [exact Hne | reflexivity..]|].
  destruct (proj2 (move_assign_transfers Scenario.writers 3%positive
                     2%positive 1%positive Scenario.spent Example.future
                     Example.tensor Hne eq_refl eq_refl eq_refl eq_refl)
              eq_refl)
    as (w' & Hm & _ & Hs & Hd).
  exists w'. split; [exact Hm|]. split; [exact Hs | exact Hd].
Defined.

(** X2.  A future can be handed on by move construction.  After B is move
    constructed from A and A is destroyed, [wait] on B returns the payload
    that [wait] on A returned before the move. *)
Theorem move_ctor_hands_the_future_on (w : World) (A B t : address)
    (f : Future) (v : vTensor) :
  A <> B ->
  futures w !! A = Some f -> tensor_ f = Some t -> tensors w !! t = Some v ->
  exists w1 w2 p,
    Future_move_ctor B A w = Ok w1 /\
    Future_dtor A w1 = Ok w2 /\
    futures w2 !! A = None /\
    Future_wait A w = Ok (p, emit (EvMap (host_memory v) (kAccess f)) w) /\
    Future_wait B w2 = Ok (p, emit (EvMap (host_memory v) (kAccess f)) w2).
Proof.
  intros Hne Hf Ht Hv. unfold Future_move_ctor.
  rewrite (deref_Some _ _ _ Hf), bind_Ok. cbn zeta.
  rewrite (deref_Some _ _ f) by (by rewrite lookup_insert_ne).
  rewrite bind_Ok. eexists. eexists. eexists.
  split; [reflexivity|]. split.
  { apply (Future_dtor_no_effect _ A (set_tensor_ nullptr f)).
    cbn. apply lookup_insert_eq. }
  split; [cbn; apply lookup_delete_eq|]. split.
  - exact (Future_wait_bound w A t f v Hf Ht Hv).
  - rewrite (Future_wait_bound _ B t (set_tensor_ (tensor_ f) f) v); [done| |done..].
    cbn. rewrite lookup_delete_ne by done.
    rewrite lookup_insert_ne by done. apply lookup_insert_eq.
Qed.

Lemma move_ctor_hands_the_future_on_witness :
  (2%positive <> 4%positive /\
   futures Scenario.world !! 2%positive = Some Example.future /\
   tensor_ Example.future = Some 1%positive /\
   tensors Scenario.world !! 1%positive = Some Example.tensor) /\
  exists w1 w2 p,
    Future_move_ctor 4%positive 2%positive Scenario.world = Ok w1 /\
    Future_dtor 2%positive w1 = Ok w2 /\
    futures w2 !! 2%positive = None /\
    Future_wait 2%positive Scenario.world
      = Ok (p, emit (EvMap {| Resource.allocation := 22 |} Access.Write)
                 Scenario.world) /\
    Future_wait 4%positive w2
      = Ok (p, emit (EvMap {| Resource.allocation := 22 |} Access.Write) w2).
Proof.
  assert (Hne : 2%positive <> 4%positive) by discriminate.
  split; [repeat split; [exact Hne | reflexivity..]|].
  exact (move_ctor_hands_the_future_on Scenario.world 2%positive 4%positive
           1%positive Example.future Example.tensor
           Hne eq_refl eq_refl eq_refl).
Defined.


(** X3.  The converting move constructor builds a future of the
    destination type.  Where [is_convertible] admits the conversion, [wait]
    on the new future maps the memory the source would have mapped and
    returns it under the type and the access right of the destination, not
    those of the source. *)
Theorem converting_ctor_takes_destination_type
    (is_convertible : string -> Access.Flags -> string -> Access.Flags -> bool)
    (Ty : string) (access : Access.Flags) (w : World) (A B t : address)
    (f : Future) (v : vTensor) :
  A <> B ->
  futures w !! A = Some f -> tensor_ f = Some t -> tensors w !! t = Some v ->
  is_convertible (Type_ f) (kAccess f) Ty access = true ->
  exists w',
    Future_converting_ctor is_convertible Ty access B A w = Ok w' /\
    Future_wait B w' =
      Ok ({| payload_memory := host_memory v; payload_type := Ty;
             payload_access := access |},
          emit (EvMap (host_memory v) access) w').
Proof.
  intros Hne Hf Ht Hv Hc. unfold Future_converting_ctor.
  rewrite (deref_Some _ _ _ Hf), bind_Ok, Hc. cbn zeta.
  rewrite (deref_Some _ _ f) by (by rewrite lookup_insert_ne).
  rewrite bind_Ok. eexists. split; [reflexivity|].
  apply (Future_wait_bound _ B t
           {| Type_ := Ty; kAccess := access; tensor_ := tensor_ f |} v);
    [|done..].
  cbn. rewrite lookup_insert_ne by done. apply lookup_insert_eq.
Qed.

Lemma converting_ctor_takes_destination_type_witness :
  (2%positive <> 4%positive /\
   futures Scenario.world !! 2%positive = Some Example.future /\
   tensor_ Example.future = Some 1%positive /\
   tensors Scenario.world !! 1%positive = Some Example.tensor /\
   Scenario.permissive (Type_ Example.future) (kAccess Example.future)
     "float" Access.Read = true) /\
  exists w',
    Future_converting_ctor Scenario.permissive "float" Access.Read
      4%positive 2%positive Scenario.world = Ok w' /\
    Future_wait 4%positive w' =
      Ok ({| payload_memory := {| Resource.allocation := 22 |};
             payload_type := "float"; payload_access := Access.Read |},
          emit (EvMap {| Resource.allocation := 22 |} Access.Read) w').
Proof.
  assert (Hne : 2%positive <> 4%positive) by discriminate.
  split; [repeat split; [exact Hne | reflexivity..]|].
  exact (converting_ctor_takes_destination_type Scenario.permissive "float"
           Access.Read Scenario.world 2%positive 4%positive 1%positive
           Example.future Example.tensor Hne eq_refl eq_refl eq_refl eq_refl).
Defined.


(** X4.  The converting move assignment is accepted exactly when
    [is_convertible] holds for the two types.  When it is, the destination
    keeps its own type and access right and awaits the tensor of the source;
    the source is left moved-from. *)
Theorem converting_assign_keeps_destination_type
    (is_convertible : string -> Access.Flags -> string -> Access.Flags -> bool)
    (w : World) (dst src t : address) (fd fs : Future) (v : vTensor) :
  dst <> src ->
  futures w !! dst = Some fd -> futures w !! src = Some fs ->
  tensor_ fs = Some t -> tensors w !! t = Some v ->
  (is_convertible (Type_ fs) (kAccess fs) (Type_ fd) (kAccess fd) = false ->
   Future_converting_assign is_convertible dst src w = IllFormed) /\
  (is_convertible (Type_ fs) (kAccess fs) (Type_ fd) (kAccess fd) = true ->
   exists w',
     Future_converting_assign is_convertible dst src w = Ok w' /\
     Future_wait src w' = Throw InvalidStateError /\
     Future_wait dst w' =
       Ok ({| payload_memory := host_memory v; payload_type := Type_ fd;
              payload_access := kAccess fd |},
           emit (EvMap (host_memory v) (kAccess fd)) w')).
Proof.
  intros Hne Hd Hs Ht Hv. unfold Future_converting_assign.
  rewrite (deref_Some _ _ _ Hd), bind_Ok, (deref_Some _ _ _ Hs), bind_Ok.
  split; intros ->; [reflexivity|]. cbn zeta.
  rewrite (deref_Some _ _ fs) by (by rewrite lookup_insert_ne).
  rewrite bind_Ok, Ht. eexists. split; [reflexivity|]. split.
  - apply (Future_wait_null _ _ (set_tensor_ nullptr fs)); [|done].
    cbn. apply lookup_insert_eq.
  - apply (Future_wait_bound _ _ t (set_tensor_ (Some t) fd) v); [|done..].
    cbn. rewrite lookup_insert_ne by done. apply lookup_insert_eq.
Qed.

Lemma converting_assign_keeps_destination_type_witness :
  (3%positive <> 2%positive /\
   futures Scenario.world !! 3%positive = Some Scenario.reader /\
   futures Scenario.world !! 2%positive = Some Example.future /\
   tensor_ Example.future = Some 1%positive /\
   tensors Scenario.world !! 1%positive = Some Example.tensor /\
   Scenario.permissive (Type_ Example.future) (kAccess Example.future)
     (Type_ Scenario.reader) (kAccess Scenario.reader) = true) /\
  exists w',
    Future_converting_assign Scenario.permissive 3%positive 2%positive
      Scenario.world = Ok w' /\
    Future_wait 2%positive w' = Throw InvalidStateError /\
    Future_wait 3%positive w' =
      Ok ({| payload_memory := {| Resource.allocation := 22 |};
             payload_type := "float"; payload_access := Access.Read |},
          emit (EvMap {| Resource.allocation := 22 |} Access.Read) w').
Proof.
  assert (Hne : 3%positive <> 2%positive) by discriminate.
  split; [repeat split; [exact Hne | reflexivity..]|].
  exact (proj2 (converting_assign_keeps_destination_type Scenario.permissive
                  Scenario.world 3%positive 2%positive 1%positive
                  Scenario.reader Example.future Example.tensor
                  Hne eq_refl eq_refl eq_refl eq_refl) eq_refl).
Defined.


(** ** Awaiting more than once *)

(** X5.  [wait] does not use the future up.  It can be called again on the
    same future and returns the same payload, each call mapping the memory
    once more. *)
Theorem wait_is_repeatable (w : World) (this t : address) (f : Future)
    (v : vTensor) :
  futures w !! this = Some f -> tensor_ f = Some t -> tensors w !! t = Some v ->
  exists p w1 w2,
    Future_wait this w = Ok (p, w1) /\
    Future_wait this w1 = Ok (p, w2) /\
    log w2 =
      log w ++ [EvMap (host_memory v) (kAccess f);
                EvMap (host_memory v) (kAccess f)].
Proof.
  intros Hf Ht Hv. rewrite (Future_wait_bound w this t f v Hf Ht Hv).
  eexists _, _, _. split; [reflexivity|]. split.
  - by rewrite (Future_wait_bound _ this t f v).
  - cbn. by rewrite <- app_assoc.
Qed.

Lemma wait_is_repeatable_witness :
  (futures Scenario.world !! 2%positive = Some Example.future /\
   tensor_ Example.future = Some 1%positive /\
   tensors Scenario.world !! 1%positive = Some Example.tensor) /\
  exists p w1 w2,
    Future_wait 2%positive Scenario.world = Ok (p, w1) /\
    Future_wait 2%positive w1 = Ok (p, w2) /\
    log w2 = [EvMap {| Resource.allocation := 22 |} Access.Write;
              EvMap {| Resource.allocation := 22 |} Access.Write].
Proof.
  split; [repeat split; reflexivity|].
  exact (wait_is_repeatable Scenario.world 2%positive 1%positive
           Example.future Example.tensor eq_refl eq_refl eq_refl).
Defined.


(** ** Futures built from a pointer *)

(** X13.  The public constructor accepts any pointer to a live tensor, in a
    debug and in a release build alike, and the future it builds can be
    awaited at once: no accessor, and so no synchronization, has to run
    first, and the tensor is left as it is. *)
Theorem constructed_future_awaits (NDEBUG : bool) (Ty : string)
    (access : Access.Flags) (w : World) (this t : address) (v : vTensor) :
  tensors w !! t = Some v ->
  exists w1,
    Future_ctor NDEBUG Ty access this (Some t) w = Ok w1 /\
    tensors w1 = tensors w /\ log w1 = log w /\
    Future_wait this w1 =
      Ok ({| payload_memory := host_memory v; payload_type := Ty;
             payload_access := access |},
          emit (EvMap (host_memory v) access) w1).
Proof.
  intros Hv. exists (with_futures
    (<[this := {| Type_ := Ty; kAccess := access; tensor_ := Some t |}]>
       (futures w)) w).
  split; [by destruct NDEBUG|]. split; [done|]. split; [done|].
  apply (Future_wait_bound _ this t
           {| Type_ := Ty; kAccess := access; tensor_ := Some t |} v);
    [|done..].
  cbn. apply lookup_insert_eq.
Qed.

Lemma constructed_future_awaits_witness :
  tensors Scenario.bare !! 1%positive = Some Example.tensor /\
  exists w1,
    Future_ctor true "float" Access.Read 2%positive (Some 1%positive)
      Scenario.bare = Ok w1 /\
    Future_wait 2%positive w1 =
      Ok ({| payload_memory := {| Resource.allocation := 22 |};
             payload_type := "float"; payload_access := Access.Read |},
          emit (EvMap {| Resource.allocation := 22 |} Access.Read) w1).
Proof.
  split; [reflexivity|].
  destruct (constructed_future_awaits true "float" Access.Read Scenario.bare
              2%positive 1%positive Example.tensor eq_refl)
    as (w1 & Hc & _ & _ & Hw).
  exists w1. split; [exact Hc | exact Hw].
Defined.

(** ** The host accessor of a read-only view *)

(** X8.  [host<Type>() const &] cannot be used.  On a named view, const or
    not, the call [host<Type>()] selects this overload, and its body hands
    the [const vTensor*] of the private [host() const] to the constructor
    [Future(vTensor* tensor)]: whatever the build, the type, the view and the
    state, the call is rejected when it is compiled, and no future is
    built. *)
Theorem host_const_does_not_instantiate (convert : Rep -> Rep -> bool)
    (unwritten : Rep -> Access.Flags -> Dirty -> Res (list Event * Dirty))
    (NDEBUG const : bool) (Ty : string) (this result : address) (w : World) :
  Overload.resolve Overload.vTensor_members
    (Overload.Build_CallSite "host" 1 0 const Overload.lvalue)
  = Overload.Chosen
      (Overload.Build_Member "host" 1 0 true Overload.ref_lvalue false false)
  /\
  Model.vTensor_host_const convert unwritten NDEBUG Ty this result w
  = IllFormed.
Proof. split; [by destruct const | reflexivity]. Qed.
